(** * Verilog-to-ZYNQ: the guarded BRAM accessor of [vitis-example.c]

    A shallow embedding of [bram_write], [bram_read] and [createUint128_t]
    over a byte-addressed memory, with every memory access of the C text
    recorded as an event in program order.

    Conventions.
    - C integers are [Z]; a value of type [unsigned int], [uint64_t] or
      [uint128_t] is one in the range of that type ([is_uint], [is_uint64],
      [is_uint128]).
    - Pointers are 64 bits wide (the target has [unsigned __int128]), the
      byte order is little-endian, [sizeof(int) = 4], [sizeof(uint128_t) = 16].
    - The address space is plain storage: a load returns the bytes last
      stored. What the FPGA design does with the enable bit is outside the
      C text and outside this model.
    - Accesses happen in the order the C text gives them (the semantics of
      the C abstract machine). *)

From Stdlib Require Import ZArith Lia List Bool.
From Stdlib Require String Ascii.
From coqutil Require Import Byte Word.LittleEndianList.
Import ListNotations.
Local Open Scope Z_scope.

(** ** Ranges of the C types *)

Definition is_uint (z : Z) : Prop := 0 <= z < 2 ^ 32.
Definition is_uint64 (z : Z) : Prop := 0 <= z < 2 ^ 64.
Definition is_uint128 (z : Z) : Prop := 0 <= z < 2 ^ 128.

(** Conversion of a 32-bit pattern to [int] (two's complement). *)
Definition to_int (z : Z) : Z := (z + 2 ^ 31) mod 2 ^ 32 - 2 ^ 31.

(** ** Byte-addressed memory *)

Module Mem.

Definition memory : Type := Z -> byte.

Definition set (m : memory) (a : Z) (b : byte) : memory :=
  fun x => if Z.eqb x a then b else m x.

Fixpoint store_bytes (m : memory) (a : Z) (bs : list byte) : memory :=
  match bs with
  | [] => m
  | b :: bs' => store_bytes (set m a b) (a + 1) bs'
  end.

Fixpoint load_bytes (m : memory) (a : Z) (n : nat) : list byte :=
  match n with
  | O => []
  | S n' => m a :: load_bytes m (a + 1) n'
  end.

(** Two memories that hold the same byte at every address. *)
Definition agree (m1 m2 : memory) : Prop := forall a, m1 a = m2 a.

(** Typed accesses: [int] (4 bytes) and [uint128_t] (16 bytes). *)
Definition store_int (m : memory) (a v : Z) : memory :=
  store_bytes m a (le_split 4 v).
Definition load_int (m : memory) (a : Z) : Z :=
  to_int (le_combine (load_bytes m a 4)).
Definition store_u128 (m : memory) (a v : Z) : memory :=
  store_bytes m a (le_split 16 v).
Definition load_u128 (m : memory) (a : Z) : Z :=
  le_combine (load_bytes m a 16).

(** The all-zero memory, for examples. *)
Definition zero : memory := fun _ => Byte.x00.

End Mem.

Import Mem.

(** ** Addresses ([#define]s of the source) *)

Definition SLV_REG0 : Z := 0xA0000000.
Definition SLV_REG1 : Z := SLV_REG0 + 4.
Definition SLV_REG2 : Z := SLV_REG0 + 8.
Definition SLV_REG3 : Z := SLV_REG0 + 12.
Definition BRAM_BASE : Z := 0xB0000000.

(** [&p[i]] for [p] of type [uint128_t *]: elements are 16 bytes apart. *)
Definition index_u128 (p i : Z) : Z := p + 16 * i.

(** ** Events and the access monad *)

Inductive event : Type :=
| StoreInt (a v : Z)
| LoadInt (a v : Z)
| StoreU128 (a v : Z)
| LoadU128 (a v : Z).

(** A computation takes the memory and returns a result, the memory it
    leaves and the accesses it made, oldest first. *)
Definition io (A : Type) : Type := memory -> A * memory * list event.

Definition ret {A} (x : A) : io A := fun m => (x, m, []).

Definition bind {A B} (c : io A) (k : A -> io B) : io B :=
  fun m =>
    let '(x, m1, e1) := c m in
    let '(y, m2, e2) := k x m1 in
    (y, m2, e1 ++ e2).

Declare Scope io_scope.
Delimit Scope io_scope with io.
Notation "x <- c ;; k" := (bind c (fun x => k))
  (at level 61, c at next level, right associativity) : io_scope.
Notation "c ;; k" := (bind c (fun _ => k))
  (at level 61, right associativity) : io_scope.
Local Open Scope io_scope.

Definition result {A} (r : A * memory * list event) : A := fst (fst r).
Definition final {A} (r : A * memory * list event) : memory := snd (fst r).
Definition events {A} (r : A * memory * list event) : list event := snd r.

(** [*((int * )a) = v] *)
Definition write_int (a v : Z) : io unit :=
  fun m => (tt, store_int m a v, [StoreInt a v]).

(** [*((int * )a)] *)
Definition read_int (a : Z) : io Z :=
  fun m => let v := load_int m a in (v, m, [LoadInt a v]).

(** [*(volatile uint128_t * )a = v] *)
Definition write_u128 (a v : Z) : io unit :=
  fun m => (tt, store_u128 m a v, [StoreU128 a v]).

(** [*(volatile uint128_t * )a] *)
Definition read_u128 (a : Z) : io Z :=
  fun m => let v := load_u128 m a in (v, m, [LoadU128 a v]).

(** ** The functions of [vitis-example.c] *)

Definition bram_write (value bram_addr : Z) : io unit :=
  let bram_ptr := BRAM_BASE in
  write_int SLV_REG3 1 ;;
  write_u128 (index_u128 bram_ptr bram_addr) value ;;
  write_int SLV_REG3 0.

Definition bram_read (bram_addr : Z) : io Z :=
  let bram_ptr := BRAM_BASE in
  write_int SLV_REG3 1 ;;
  value <- read_u128 (index_u128 bram_ptr bram_addr) ;;
  write_int SLV_REG3 0 ;;
  ret value.

(** [((uint128_t)high << 64) | low]: the shift is taken in [uint128_t]. *)
Definition createUint128_t (high low : Z) : Z :=
  Z.lor (Z.shiftl high 64 mod 2 ^ 128) low.

(** The memory accesses of [main], between [init_platform] and
    [cleanup_platform]; the result is the triple [value1], [value2],
    [value3]. *)
Definition main_accesses : io (Z * Z * Z) :=
  write_int SLV_REG0 42 ;;
  value1 <- read_int SLV_REG0 ;;
  let value2 := createUint128_t 0x0000000000000001 0x0000000000000002 in
  bram_write value2 0 ;;
  value3 <- bram_read 0 ;;
  ret (value1, value2, value3).

(** ** Call histories *)

Inductive call : Type :=
| CallWrite (value bram_addr : Z)
| CallRead (bram_addr : Z).

Definition run_call (c : call) (m : memory) : memory :=
  match c with
  | CallWrite v i => final (bram_write v i m)
  | CallRead i => final (bram_read i m)
  end.

Definition run (h : list call) (m : memory) : memory :=
  fold_left (fun m c => run_call c m) h m.

(** ** Observations on event lists *)

(** Does a store of [n] bytes at [a] reach the [k] bytes at [r]? *)
Definition overlaps (a n r k : Z) : bool :=
  (a <? r + k) && (r <? a + n).

(** The stores that reach the four bytes of the register at [r]. *)
Definition stores_to (r : Z) (e : event) : bool :=
  match e with
  | StoreInt a _ => overlaps a 4 r 4
  | StoreU128 a _ => overlaps a 16 r 4
  | LoadInt _ _ | LoadU128 _ _ => false
  end.

Definition is_store (e : event) : bool :=
  match e with
  | StoreInt _ _ | StoreU128 _ _ => true
  | LoadInt _ _ | LoadU128 _ _ => false
  end.

(** The accesses to the 128-bit cells. *)
Definition is_bram_access (e : event) : bool :=
  match e with
  | StoreU128 _ _ | LoadU128 _ _ => true
  | StoreInt _ _ | LoadInt _ _ => false
  end.

(** The values an [int] register at [r] is given, in order. *)
Definition values_written (r : Z) (es : list event) : list Z :=
  flat_map (fun e => match e with
                     | StoreInt a v => if Z.eqb a r then [v] else []
                     | _ => []
                     end) es.

(** What a logged access does to the memory: a store writes its bytes, a
    load changes nothing. *)
Definition apply_event (m : memory) (e : event) : memory :=
  match e with
  | StoreInt a v => store_int m a v
  | StoreU128 a v => store_u128 m a v
  | LoadInt _ _ | LoadU128 _ _ => m
  end.

(** The memory after the logged accesses, done in order from [m]. *)
Definition replay (es : list event) (m : memory) : memory :=
  fold_left apply_event es m.

(** The [int] the register at [r] holds right after each access in turn. *)
Fixpoint register_history (r : Z) (es : list event) (m : memory) : list Z :=
  match es with
  | [] => []
  | e :: es' =>
      load_int (apply_event m e) r :: register_history r es' (apply_event m e)
  end.

(** ** Histories: accesses made and values returned *)

Definition call_events (c : call) (m : memory) : list event :=
  match c with
  | CallWrite v i => events (bram_write v i m)
  | CallRead i => events (bram_read i m)
  end.

(** All accesses of a sequence of calls, oldest first. *)
Fixpoint run_events (h : list call) (m : memory) : list event :=
  match h with
  | [] => []
  | c :: h' => call_events c m ++ run_events h' (run_call c m)
  end.

(** The values the reads of a sequence of calls return, in order. *)
Fixpoint run_results (h : list call) (m : memory) : list Z :=
  match h with
  | [] => []
  | CallWrite v i :: h' => run_results h' (final (bram_write v i m))
  | CallRead i :: h' =>
      result (bram_read i m) :: run_results h' (final (bram_read i m))
  end.

(** A call whose arguments are in the range of the parameter types. *)
Definition call_ok (c : call) : Prop :=
  match c with
  | CallWrite v i => is_uint128 v /\ is_uint i
  | CallRead i => is_uint i
  end.

(** *** An array of 128-bit cells, to compare the accessor with *)

Definition array_update (a : Z -> Z) (i v : Z) : Z -> Z :=
  fun j => if Z.eqb j i then v else a j.

Fixpoint array_run (h : list call) (a : Z -> Z) : Z -> Z :=
  match h with
  | [] => a
  | CallWrite v i :: h' => array_run h' (array_update a i v)
  | CallRead _ :: h' => array_run h' a
  end.

Fixpoint array_results (h : list call) (a : Z -> Z) : list Z :=
  match h with
  | [] => []
  | CallWrite v i :: h' => array_results h' (array_update a i v)
  | CallRead i :: h' => a i :: array_results h' a
  end.

(** The cells of the BRAM as the memory holds them. *)
Definition cells_of (m : memory) : Z -> Z :=
  fun i => load_u128 m (index_u128 BRAM_BASE i).

(** ** The whole of [main] *)

(** [init_platform], [cleanup_platform] and [print] are defined outside
    [vitis-example.c]; [main] takes them as parameters: any computations on
    the memory. *)
Module Platform.
Import String.

Definition newline : string := String (Ascii.ascii_of_nat 10) EmptyString.

Section Main.

Variables (init_platform cleanup_platform : io unit) (print : string -> io unit).

Definition main : io Z :=
  init_platform ;;
  print (append "Starting" newline) ;;
  write_int SLV_REG0 42 ;;
  value1 <- read_int SLV_REG0 ;;
  let value2 := createUint128_t 0x0000000000000001 0x0000000000000002 in
  bram_write value2 0 ;;
  value3 <- bram_read 0 ;;
  print (append "Done" newline) ;;
  cleanup_platform ;;
  ret 0.

End Main.

End Platform.

(** ** Proof helpers *)

(** Case analysis on an address: below, inside or above [n] bytes at [a]. *)
Ltac region x a n :=
  destruct (Z_lt_ge_dec x a);
  [| destruct (Z_lt_ge_dec x (a + n))].

(** ** Sanity checks on concrete inputs *)

Example main_values :
  result (main_accesses zero) = (42, 2 ^ 64 + 2, 2 ^ 64 + 2).
Proof. vm_compute. reflexivity. Qed.

Example main_events :
  events (main_accesses zero) =
  [ StoreInt SLV_REG0 42; LoadInt SLV_REG0 42;
    StoreInt SLV_REG3 1; StoreU128 BRAM_BASE (2 ^ 64 + 2); StoreInt SLV_REG3 0;
    StoreInt SLV_REG3 1; LoadU128 BRAM_BASE (2 ^ 64 + 2); StoreInt SLV_REG3 0 ].
Proof. vm_compute. reflexivity. Qed.

Example store_negative_int :
  load_int (store_int zero SLV_REG1 (-2)) SLV_REG1 = -2.
Proof. vm_compute. reflexivity. Qed.

(** ** Facts about the memory *)

Section MemFacts.

Lemma set_same (m : memory) a b : set m a b a = b.
Proof. unfold set. now rewrite Z.eqb_refl. Qed.

Lemma set_other (m : memory) a b x : x <> a -> set m a b x = m x.
Proof. unfold set. intros Hx. now destruct (Z.eqb_spec x a). Qed.

(** A store leaves every byte outside its range alone. *)
Lemma store_bytes_outside bs : forall (m : memory) a x,
  x < a \/ a + Z.of_nat (length bs) <= x ->
  store_bytes m a bs x = m x.
Proof.
  induction bs as [| b bs IH]; intros m a x Hx; cbn [store_bytes].
  - reflexivity.
  - cbn [length] in Hx. rewrite IH by lia. apply set_other. lia.
Qed.

(** Loads read the memory only inside their range. *)
Lemma load_bytes_ext n : forall (m1 m2 : memory) a,
  (forall x, a <= x < a + Z.of_nat n -> m1 x = m2 x) ->
  load_bytes m1 a n = load_bytes m2 a n.
Proof.
  induction n as [| n IH]; intros m1 m2 a H; cbn [load_bytes].
  - reflexivity.
  - f_equal.
    + apply H. lia.
    + apply IH. intros x Hx. apply H. lia.
Qed.

(** Reading back what was just stored. *)
Lemma load_store_same bs : forall (m : memory) a,
  load_bytes (store_bytes m a bs) a (length bs) = bs.
Proof.
  induction bs as [| b bs IH]; intros m a; cbn [store_bytes load_bytes length].
  - reflexivity.
  - f_equal.
    + rewrite store_bytes_outside by lia. apply set_same.
    + apply IH.
Qed.

Lemma to_int_small z : - 2 ^ 31 <= z < 2 ^ 31 -> to_int (z mod 2 ^ 32) = z.
Proof.
  intros Hz. unfold to_int.
  rewrite Zplus_mod_idemp_l.
  rewrite Z.mod_small by lia. lia.
Qed.

Lemma load_store_int (m : memory) a v :
  - 2 ^ 31 <= v < 2 ^ 31 -> load_int (store_int m a v) a = v.
Proof.
  intros Hv. unfold load_int, store_int.
  rewrite <- (length_le_split 4 v) at 2.
  rewrite load_store_same, le_combine_split.
  now apply to_int_small.
Qed.

Lemma load_store_u128 (m : memory) a v :
  is_uint128 v -> load_u128 (store_u128 m a v) a = v.
Proof.
  intros Hv. unfold load_u128, store_u128.
  rewrite <- (length_le_split 16 v) at 2.
  rewrite load_store_same, le_combine_split.
  apply Z.mod_small. exact Hv.
Qed.

Lemma load_u128_range (m : memory) a : is_uint128 (load_u128 m a).
Proof.
  unfold is_uint128, load_u128.
  pose proof (le_combine_bound (load_bytes m a 16)) as H.
  assert (L : forall k m' a', length (load_bytes m' a' k) = k)
    by (induction k; intros; cbn [load_bytes length]; auto).
  rewrite L in H. exact H.
Qed.

Lemma store_int_outside (m : memory) a v x :
  x < a \/ a + 4 <= x -> store_int m a v x = m x.
Proof.
  intros H. unfold store_int. apply store_bytes_outside.
  rewrite length_le_split. lia.
Qed.

Lemma store_u128_outside (m : memory) a v x :
  x < a \/ a + 16 <= x -> store_u128 m a v x = m x.
Proof.
  intros H. unfold store_u128. apply store_bytes_outside.
  rewrite length_le_split. lia.
Qed.

Lemma load_int_ext (m1 m2 : memory) a :
  (forall x, a <= x < a + 4 -> m1 x = m2 x) -> load_int m1 a = load_int m2 a.
Proof.
  intros H. unfold load_int. f_equal. f_equal. now apply load_bytes_ext.
Qed.

Lemma load_u128_ext (m1 m2 : memory) a :
  (forall x, a <= x < a + 16 -> m1 x = m2 x) -> load_u128 m1 a = load_u128 m2 a.
Proof.
  intros H. unfold load_u128. f_equal. now apply load_bytes_ext.
Qed.

(** Inside its range a store writes the same bytes whatever was there. *)
Lemma store_bytes_inside bs : forall (m1 m2 : memory) a x,
  a <= x < a + Z.of_nat (length bs) ->
  store_bytes m1 a bs x = store_bytes m2 a bs x.
Proof.
  induction bs as [| b bs IH]; intros m1 m2 a x Hx; cbn [store_bytes].
  - cbn [length] in Hx. lia.
  - cbn [length] in Hx. destruct (Z.eq_dec x a) as [-> | Hne].
    + rewrite !store_bytes_outside by lia. now rewrite !set_same.
    + apply IH. lia.
Qed.

Lemma agree_store_bytes bs (m1 m2 : memory) a :
  agree m1 m2 -> agree (store_bytes m1 a bs) (store_bytes m2 a bs).
Proof.
  intros H x.
  destruct (Z_lt_ge_dec x a) as [Hlt | Hge].
  - rewrite !store_bytes_outside by lia. apply H.
  - destruct (Z_lt_ge_dec x (a + Z.of_nat (length bs))) as [Hin | Hout].
    + apply store_bytes_inside. lia.
    + rewrite !store_bytes_outside by lia. apply H.
Qed.

End MemFacts.

(** ** What one call does: result, final memory, events *)

Section Calls.

Variables (m : memory) (value bram_addr : Z).

Lemma bram_write_final :
  final (bram_write value bram_addr m) =
  store_int
    (store_u128 (store_int m SLV_REG3 1) (index_u128 BRAM_BASE bram_addr) value)
    SLV_REG3 0.
Proof. reflexivity. Qed.

Lemma bram_write_events :
  events (bram_write value bram_addr m) =
  [StoreInt SLV_REG3 1;
   StoreU128 (index_u128 BRAM_BASE bram_addr) value;
   StoreInt SLV_REG3 0].
Proof. reflexivity. Qed.

Lemma bram_read_final :
  final (bram_read bram_addr m) =
  store_int (store_int m SLV_REG3 1) SLV_REG3 0.
Proof. reflexivity. Qed.

Lemma bram_read_result :
  result (bram_read bram_addr m) =
  load_u128 (store_int m SLV_REG3 1) (index_u128 BRAM_BASE bram_addr).
Proof. reflexivity. Qed.

Lemma bram_read_events :
  events (bram_read bram_addr m) =
  [StoreInt SLV_REG3 1;
   LoadU128 (index_u128 BRAM_BASE bram_addr)
            (load_u128 (store_int m SLV_REG3 1) (index_u128 BRAM_BASE bram_addr));
   StoreInt SLV_REG3 0].
Proof. reflexivity. Qed.

(** The cells lie above the register block. *)
Lemma slot_above_registers :
  0 <= bram_addr -> SLV_REG3 + 4 <= index_u128 BRAM_BASE bram_addr.
Proof.
  intros H.
  unfold index_u128, BRAM_BASE, SLV_REG3, SLV_REG0. lia.
Qed.

(** Indexing by an [unsigned int] stays inside the 64-bit address space. *)
Lemma slot_in_address_space :
  is_uint bram_addr ->
  0 <= index_u128 BRAM_BASE bram_addr
  /\ index_u128 BRAM_BASE bram_addr + 16 <= 2 ^ 64.
Proof.
  unfold is_uint. intros H.
  unfold index_u128, BRAM_BASE. lia.
Qed.

(** Outside the enable register and the addressed cell, a write changes
    nothing. *)
Lemma bram_write_frame x :
  x < SLV_REG3 \/ SLV_REG3 + 4 <= x ->
  x < index_u128 BRAM_BASE bram_addr \/ index_u128 BRAM_BASE bram_addr + 16 <= x ->
  final (bram_write value bram_addr m) x = m x.
Proof.
  intros Hr Hs. rewrite bram_write_final.
  rewrite store_int_outside by exact Hr.
  rewrite store_u128_outside by exact Hs.
  now apply store_int_outside.
Qed.

(** Outside the enable register, a read changes nothing. *)
Lemma bram_read_frame x :
  x < SLV_REG3 \/ SLV_REG3 + 4 <= x ->
  final (bram_read bram_addr m) x = m x.
Proof.
  intros Hr. rewrite bram_read_final.
  rewrite store_int_outside by exact Hr.
  now apply store_int_outside.
Qed.

(** The value a read returns is the content of the cell before the call. *)
Lemma bram_read_loads_slot :
  0 <= bram_addr ->
  result (bram_read bram_addr m) = load_u128 m (index_u128 BRAM_BASE bram_addr).
Proof.
  intros H. rewrite bram_read_result.
  apply load_u128_ext. intros x Hx.
  apply store_int_outside.
  pose proof (slot_above_registers H). lia.
Qed.

(** After a write the cell holds the value. *)
Lemma bram_write_stores_slot :
  0 <= bram_addr ->
  load_bytes (final (bram_write value bram_addr m))
             (index_u128 BRAM_BASE bram_addr) 16
  = le_split 16 value.
Proof.
  intros H. rewrite bram_write_final.
  pose proof (slot_above_registers H) as Hs.
  rewrite (load_bytes_ext 16 _
             (store_u128 (store_int m SLV_REG3 1)
                         (index_u128 BRAM_BASE bram_addr) value)).
  - unfold store_u128.
    rewrite <- (length_le_split 16 value) at 2.
    apply load_store_same.
  - intros x Hx. apply store_int_outside. lia.
Qed.

(** Whatever the call, the enable register is 0 when it returns. *)
Lemma bram_write_clears_enable :
  load_int (final (bram_write value bram_addr m)) SLV_REG3 = 0.
Proof. rewrite bram_write_final. apply load_store_int. lia. Qed.

Lemma bram_read_clears_enable :
  load_int (final (bram_read bram_addr m)) SLV_REG3 = 0.
Proof. rewrite bram_read_final. apply load_store_int. lia. Qed.

End Calls.

Lemma run_call_clears_enable c m : load_int (run_call c m) SLV_REG3 = 0.
Proof.
  destruct c; cbn [run_call].
  - apply bram_write_clears_enable.
  - apply bram_read_clears_enable.
Qed.

Lemma run_snoc h c m : run (h ++ [c]) m = run_call c (run h m).
Proof. unfold run. now rewrite fold_left_app. Qed.

Lemma run_preserves_enable_clear h : forall m,
  load_int m SLV_REG3 = 0 -> load_int (run h m) SLV_REG3 = 0.
Proof.
  induction h as [| c h IH]; intros m Hm; cbn [run fold_left].
  - exact Hm.
  - apply IH. apply run_call_clears_enable.
Qed.

(** ** Bits of a 64-bit value *)

Lemma uint64_high_bits low n : is_uint64 low -> 64 <= n -> Z.testbit low n = false.
Proof.
  intros [Hlo Hhi] Hn.
  destruct (Z.eq_dec low 0) as [-> | Hnz].
  - apply Z.testbit_0_l.
  - apply Z.bits_above_log2; [exact Hlo |].
    assert (Z.log2 low < 64) by (apply Z.log2_lt_pow2; lia). lia.
Qed.

Lemma lor_shiftl64_add high low :
  is_uint64 low -> Z.lor (Z.shiftl high 64) low = high * 2 ^ 64 + low.
Proof.
  intros Hl.
  rewrite <- (Z.shiftl_mul_pow2 high 64) by lia.
  rewrite <- Z.add_lor_land.
  replace (Z.land (Z.shiftl high 64) low) with 0; [lia |].
  symmetry. apply Z.bits_inj'. intros n Hn.
  rewrite Z.land_spec, Z.bits_0.
  destruct (Z.lt_ge_cases n 64) as [Hlt | Hge].
  - now rewrite Z.shiftl_spec_low.
  - rewrite (uint64_high_bits low n) by assumption. apply andb_false_r.
Qed.


(** The events of a call, with the loaded value read off the memory the
    call started from. *)
Lemma call_events_from_start (m : memory) v i :
  is_uint i ->
  events (bram_write v i m) =
    [StoreInt SLV_REG3 1; StoreU128 (index_u128 BRAM_BASE i) v; StoreInt SLV_REG3 0]
  /\ events (bram_read i m) =
    [StoreInt SLV_REG3 1;
     LoadU128 (index_u128 BRAM_BASE i) (load_u128 m (index_u128 BRAM_BASE i));
     StoreInt SLV_REG3 0].
Proof.
  intros [Hi _]. split; [reflexivity |].
  rewrite bram_read_events.
  rewrite <- (bram_read_result m i), (bram_read_loads_slot m i Hi).
  reflexivity.
Qed.


(** The log of a call is what the call did to the memory. *)
Lemma bram_write_replay (m : memory) v i :
  final (bram_write v i m) = replay (events (bram_write v i m)) m.
Proof. reflexivity. Qed.

Lemma bram_read_replay (m : memory) i :
  final (bram_read i m) = replay (events (bram_read i m)) m.
Proof. reflexivity. Qed.

(** The store to the cell leaves the enable register as it is. *)
Lemma enable_kept_by_cell_store (m : memory) v i :
  0 <= i ->
  load_int (store_u128 m (index_u128 BRAM_BASE i) v) SLV_REG3
  = load_int m SLV_REG3.
Proof.
  intros Hi. pose proof (slot_above_registers i Hi) as Hs.
  apply load_int_ext. intros x Hx. apply store_u128_outside. lia.
Qed.

(** The enable register holds 1 once the first store is done and while the
    cell is accessed, and 0 when the call returns. *)
Lemma bram_write_register_history (m : memory) v i :
  0 <= i ->
  register_history SLV_REG3 (events (bram_write v i m)) m = [1; 1; 0].
Proof.
  intros Hi. rewrite bram_write_events.
  cbn [register_history apply_event].
  rewrite (enable_kept_by_cell_store _ v i Hi).
  rewrite !load_store_int by lia. reflexivity.
Qed.

Lemma bram_read_register_history (m : memory) i :
  register_history SLV_REG3 (events (bram_read i m)) m = [1; 1; 0].
Proof.
  rewrite bram_read_events.
  cbn [register_history apply_event].
  rewrite !load_store_int by lia. reflexivity.
Qed.

(** What the log of a call holds, for an [unsigned int] index. *)
Lemma call_events_filtered (m : memory) v i :
  is_uint i ->
  events (bram_write v i m) =
    [StoreInt SLV_REG3 1; StoreU128 (index_u128 BRAM_BASE i) v; StoreInt SLV_REG3 0]
  /\ events (bram_read i m) =
    [StoreInt SLV_REG3 1;
     LoadU128 (index_u128 BRAM_BASE i) (load_u128 m (index_u128 BRAM_BASE i));
     StoreInt SLV_REG3 0]
  /\ filter (stores_to SLV_REG3) (events (bram_write v i m)) =
    [StoreInt SLV_REG3 1; StoreInt SLV_REG3 0]
  /\ filter (stores_to SLV_REG3) (events (bram_read i m)) =
    [StoreInt SLV_REG3 1; StoreInt SLV_REG3 0]
  /\ values_written SLV_REG3 (events (bram_write v i m)) = [1; 0]
  /\ values_written SLV_REG3 (events (bram_read i m)) = [1; 0]
  /\ filter is_bram_access (events (bram_write v i m)) =
    [StoreU128 (index_u128 BRAM_BASE i) v]
  /\ filter is_bram_access (events (bram_read i m)) =
    [LoadU128 (index_u128 BRAM_BASE i) (load_u128 m (index_u128 BRAM_BASE i))].
Proof.
  intros [Hi _].
  pose proof (slot_above_registers i Hi) as Hs.
  assert (Hov : overlaps (index_u128 BRAM_BASE i) 16 SLV_REG3 4 = false).
  { unfold overlaps. apply andb_false_iff. left. apply Z.ltb_ge. exact Hs. }
  assert (Hld : load_u128 (store_int m SLV_REG3 1) (index_u128 BRAM_BASE i)
                = load_u128 m (index_u128 BRAM_BASE i)).
  { rewrite <- bram_read_result. now apply bram_read_loads_slot. }
  rewrite bram_write_events, bram_read_events, Hld.
  cbn [filter stores_to is_bram_access values_written flat_map app].
  rewrite Hov, Z.eqb_refl.
  replace (overlaps SLV_REG3 4 SLV_REG3 4) with true by reflexivity.
  repeat split; reflexivity.
Qed.

(** ** The claims *)

(** C2. For 64-bit [high] and [low], [createUint128_t high low] is the
    128-bit number [(high << 64) | low]: [high] is its upper half and [low]
    its lower half. For [high = 1], [low = 2] it is [(1 << 64) | 2]. *)
Theorem createUint128_t_concat high low :
  is_uint64 high -> is_uint64 low ->
  createUint128_t high low = Z.lor (Z.shiftl high 64) low
  /\ is_uint128 (createUint128_t high low)
  /\ Z.shiftr (createUint128_t high low) 64 = high
  /\ createUint128_t high low mod 2 ^ 64 = low
  /\ createUint128_t 1 2 = Z.lor (Z.shiftl 1 64) 2.
Proof.
  intros Hh Hl.
  assert (E : createUint128_t high low = Z.lor (Z.shiftl high 64) low).
  { unfold createUint128_t. f_equal.
    rewrite Z.shiftl_mul_pow2 by lia.
    apply Z.mod_small. unfold is_uint64 in Hh. lia. }
  split; [exact E |].
  rewrite E, lor_shiftl64_add by exact Hl.
  unfold is_uint64 in Hh, Hl. unfold is_uint128.
  repeat split.
  - lia.
  - lia.
  - rewrite Z.shiftr_div_pow2 by lia.
    rewrite Z.div_add_l by lia. rewrite Z.div_small by lia. lia.
  - rewrite Z.add_comm, Z.mod_add by lia. apply Z.mod_small. lia.
Qed.

Lemma createUint128_t_concat_witness :
  (is_uint64 1 /\ is_uint64 2)
  /\ createUint128_t 1 2 = 2 ^ 64 + 2
  /\ Z.shiftr (createUint128_t 1 2) 64 = 1
  /\ createUint128_t 1 2 mod 2 ^ 64 = 2.
Proof.
  assert (H1 : is_uint64 1) by (unfold is_uint64; lia).
  assert (H2 : is_uint64 2) by (unfold is_uint64; lia).
  destruct (createUint128_t_concat 1 2 H1 H2) as (E & _ & Hhi & Hlo & _).
  split; [split; assumption |].
  split; [rewrite E; reflexivity |].
  split; assumption.
Defined.

(** C1. A write of a 128-bit value [v] at index [i] followed at once by a
    read at [i] returns [v]. *)
Theorem bram_write_read_roundtrip (m : memory) v i :
  is_uint128 v -> is_uint i ->
  result (bram_read i (final (bram_write v i m))) = v.
Proof.
  intros Hv [Hi _].
  rewrite bram_read_loads_slot by exact Hi.
  unfold load_u128. rewrite bram_write_stores_slot by exact Hi.
  rewrite le_combine_split. apply Z.mod_small. exact Hv.
Qed.

Lemma bram_write_read_roundtrip_witness :
  (is_uint128 (2 ^ 127 + 5) /\ is_uint 7)
  /\ result (bram_read 7 (final (bram_write (2 ^ 127 + 5) 7 zero))) = 2 ^ 127 + 5.
Proof.
  assert (Hv : is_uint128 (2 ^ 127 + 5)) by (unfold is_uint128; lia).
  assert (Hi : is_uint 7) by (unfold is_uint; lia).
  split; [split; assumption |].
  exact (bram_write_read_roundtrip zero (2 ^ 127 + 5) 7 Hv Hi).
Defined.

(** C3. During a call of [bram_write] or [bram_read] the enable register
    [SLV_REG3] is given exactly the values 1 and then 0, and the one access
    to the BRAM cell comes after the store of 1 and before the store of 0:
    so in the log of the call, and so in the memory, where the register
    holds 1 from the first store on and while the cell is accessed, and 0
    when the call returns. *)
Theorem enable_brackets_access (m : memory) v i :
  is_uint i ->
  events (bram_write v i m) =
    [StoreInt SLV_REG3 1; StoreU128 (index_u128 BRAM_BASE i) v; StoreInt SLV_REG3 0]
  /\ events (bram_read i m) =
    [StoreInt SLV_REG3 1;
     LoadU128 (index_u128 BRAM_BASE i) (load_u128 m (index_u128 BRAM_BASE i));
     StoreInt SLV_REG3 0]
  /\ filter (stores_to SLV_REG3) (events (bram_write v i m)) =
    [StoreInt SLV_REG3 1; StoreInt SLV_REG3 0]
  /\ filter (stores_to SLV_REG3) (events (bram_read i m)) =
    [StoreInt SLV_REG3 1; StoreInt SLV_REG3 0]
  /\ values_written SLV_REG3 (events (bram_write v i m)) = [1; 0]
  /\ values_written SLV_REG3 (events (bram_read i m)) = [1; 0]
  /\ filter is_bram_access (events (bram_write v i m)) =
    [StoreU128 (index_u128 BRAM_BASE i) v]
  /\ filter is_bram_access (events (bram_read i m)) =
    [LoadU128 (index_u128 BRAM_BASE i) (load_u128 m (index_u128 BRAM_BASE i))]
  /\ final (bram_write v i m) = replay (events (bram_write v i m)) m
  /\ final (bram_read i m) = replay (events (bram_read i m)) m
  /\ final (bram_write v i m) =
     store_int (store_u128 (store_int m SLV_REG3 1) (index_u128 BRAM_BASE i) v)
               SLV_REG3 0
  /\ final (bram_read i m) = store_int (store_int m SLV_REG3 1) SLV_REG3 0
  /\ result (bram_read i m) =
     load_u128 (store_int m SLV_REG3 1) (index_u128 BRAM_BASE i)
  /\ load_int (store_int m SLV_REG3 1) SLV_REG3 = 1
  /\ load_int (store_u128 (store_int m SLV_REG3 1) (index_u128 BRAM_BASE i) v)
              SLV_REG3 = 1
  /\ register_history SLV_REG3 (events (bram_write v i m)) m = [1; 1; 0]
  /\ register_history SLV_REG3 (events (bram_read i m)) m = [1; 1; 0]
  /\ load_int (final (bram_write v i m)) SLV_REG3 = 0
  /\ load_int (final (bram_read i m)) SLV_REG3 = 0.
Proof.
  intros Hi.
  destruct (call_events_filtered m v i Hi)
    as (A1 & A2 & A3 & A4 & A5 & A6 & A7 & A8).
  destruct Hi as [Hi _].
  split; [exact A1 |]. split; [exact A2 |]. split; [exact A3 |].
  split; [exact A4 |]. split; [exact A5 |]. split; [exact A6 |].
  split; [exact A7 |]. split; [exact A8 |].
  split; [apply bram_write_replay |].
  split; [apply bram_read_replay |].
  split; [apply bram_write_final |].
  split; [apply bram_read_final |].
  split; [apply bram_read_result |].
  split; [apply load_store_int; lia |].
  split.
  { rewrite (enable_kept_by_cell_store _ v i Hi). apply load_store_int. lia. }
  split; [now apply bram_write_register_history |].
  split; [apply bram_read_register_history |].
  split; [apply bram_write_clears_enable | apply bram_read_clears_enable].
Qed.

Lemma enable_brackets_access_witness :
  (is_uint 3 /\ load_int (store_int zero SLV_REG3 5) SLV_REG3 = 5)
  /\ values_written SLV_REG3 (events (bram_write 9 3 zero)) = [1; 0]
  /\ values_written SLV_REG3 (events (bram_read 3 zero)) = [1; 0]
  /\ events (bram_read 3 zero) =
     [StoreInt SLV_REG3 1; LoadU128 (BRAM_BASE + 48) 0; StoreInt SLV_REG3 0]
  /\ register_history SLV_REG3
       (events (bram_write 9 3 (store_int zero SLV_REG3 5)))
       (store_int zero SLV_REG3 5) = [1; 1; 0]
  /\ register_history SLV_REG3
       (events (bram_read 3 (store_int zero SLV_REG3 5)))
       (store_int zero SLV_REG3 5) = [1; 1; 0]
  /\ load_int (final (bram_write 9 3 (store_int zero SLV_REG3 5))) SLV_REG3 = 0
  /\ load_int (final (bram_read 3 (store_int zero SLV_REG3 5))) SLV_REG3 = 0.
Proof.
  assert (Hi : is_uint 3) by (unfold is_uint; lia).
  destruct (enable_brackets_access zero 9 3 Hi)
    as (_ & Hr & _ & _ & Hvw & Hvr & _).
  destruct (enable_brackets_access (store_int zero SLV_REG3 5) 9 3 Hi)
    as (_ & _ & _ & _ & _ & _ & _ & _ & _ & _ & _ & _ & _ & _ & _
        & Hhw & Hhr & Hfw & Hfr).
  split; [split; [exact Hi | vm_compute; reflexivity] |].
  split; [exact Hvw |].
  split; [exact Hvr |].
  split; [rewrite Hr; reflexivity |].
  split; [exact Hhw |]. split; [exact Hhr |].
  split; [exact Hfw | exact Hfr].
Defined.

(** C4. A call of [bram_write] or [bram_read] leaves [SLV_REG0], [SLV_REG1]
    and [SLV_REG2] as they were: a write changes bytes only in [SLV_REG3]
    and in the addressed cell, a read only in [SLV_REG3]. *)
Theorem control_registers_unchanged (m : memory) v i :
  is_uint i ->
  (load_int (final (bram_write v i m)) SLV_REG0 = load_int m SLV_REG0
   /\ load_int (final (bram_write v i m)) SLV_REG1 = load_int m SLV_REG1
   /\ load_int (final (bram_write v i m)) SLV_REG2 = load_int m SLV_REG2)
  /\ (load_int (final (bram_read i m)) SLV_REG0 = load_int m SLV_REG0
      /\ load_int (final (bram_read i m)) SLV_REG1 = load_int m SLV_REG1
      /\ load_int (final (bram_read i m)) SLV_REG2 = load_int m SLV_REG2)
  /\ (forall x,
        ~ (SLV_REG3 <= x < SLV_REG3 + 4) ->
        ~ (index_u128 BRAM_BASE i <= x < index_u128 BRAM_BASE i + 16) ->
        final (bram_write v i m) x = m x)
  /\ (forall x,
        ~ (SLV_REG3 <= x < SLV_REG3 + 4) ->
        final (bram_read i m) x = m x).
Proof.
  intros [Hi _].
  pose proof (slot_above_registers i Hi) as Hs.
  assert (Hw : forall r, r + 4 <= SLV_REG3 ->
            load_int (final (bram_write v i m)) r = load_int m r).
  { intros r Hr. apply load_int_ext. intros x Hx.
    apply bram_write_frame; lia. }
  assert (Hrd : forall r, r + 4 <= SLV_REG3 ->
            load_int (final (bram_read i m)) r = load_int m r).
  { intros r Hr. apply load_int_ext. intros x Hx.
    apply bram_read_frame; lia. }
  repeat split;
    try (apply Hw; unfold SLV_REG3, SLV_REG2, SLV_REG1; lia);
    try (apply Hrd; unfold SLV_REG3, SLV_REG2, SLV_REG1; lia).
  - intros x Hx1 Hx2. apply bram_write_frame; lia.
  - intros x Hx1. apply bram_read_frame; lia.
Qed.

Lemma control_registers_unchanged_witness :
  is_uint 0
  /\ load_int (final (bram_write (2 ^ 64 + 2) 0 (store_int zero SLV_REG0 42))) SLV_REG0 = 42
  /\ load_int (final (bram_read 0 (store_int zero SLV_REG0 42))) SLV_REG0 = 42.
Proof.
  assert (Hi : is_uint 0) by (unfold is_uint; lia).
  destruct (control_registers_unchanged (store_int zero SLV_REG0 42) (2 ^ 64 + 2) 0 Hi)
    as ((Hw & _ & _) & (Hr & _ & _) & _ & _).
  split; [exact Hi |].
  rewrite Hw, Hr. split; apply load_store_int; lia.
Defined.

(** C5. For a 128-bit [value] and an index [i], [bram_write value i] stores
    [value] at address [BRAM_BASE + i * 16], and [bram_read i] loads and
    returns the 128-bit value at that address. *)
Theorem bram_cell_address (m : memory) value i :
  is_uint128 value -> is_uint i ->
  index_u128 BRAM_BASE i = BRAM_BASE + i * 16
  /\ In (StoreU128 (BRAM_BASE + i * 16) value) (events (bram_write value i m))
  /\ load_bytes (final (bram_write value i m)) (BRAM_BASE + i * 16) 16
     = le_split 16 value
  /\ load_u128 (final (bram_write value i m)) (BRAM_BASE + i * 16) = value
  /\ In (LoadU128 (BRAM_BASE + i * 16) (load_u128 m (BRAM_BASE + i * 16)))
        (events (bram_read i m))
  /\ result (bram_read i m) = load_u128 m (BRAM_BASE + i * 16)
  /\ is_uint128 (result (bram_read i m)).
Proof.
  intros Hv Hi.
  assert (E : index_u128 BRAM_BASE i = BRAM_BASE + i * 16)
    by (unfold index_u128; lia).
  destruct (call_events_from_start m value i Hi) as [Ew Er].
  rewrite <- E. destruct Hi as [Hi _].
  split; [reflexivity |].
  split; [rewrite Ew; cbn [In]; auto |].
  split; [now apply bram_write_stores_slot |].
  split.
  { unfold load_u128. rewrite bram_write_stores_slot by exact Hi.
    rewrite le_combine_split. apply Z.mod_small. exact Hv. }
  split; [rewrite Er; cbn [In]; auto |].
  split; [now apply bram_read_loads_slot |].
  rewrite bram_read_result. apply load_u128_range.
Qed.

Lemma bram_cell_address_witness :
  (is_uint128 (2 ^ 64 + 2) /\ is_uint 5)
  /\ load_u128 (final (bram_write (2 ^ 64 + 2) 5 zero)) (BRAM_BASE + 80) = 2 ^ 64 + 2
  /\ result (bram_read 5 (store_u128 zero (BRAM_BASE + 80) 77)) = 77.
Proof.
  assert (Hv : is_uint128 (2 ^ 64 + 2)) by (unfold is_uint128; lia).
  assert (Hi : is_uint 5) by (unfold is_uint; lia).
  split; [split; assumption |].
  split.
  - destruct (bram_cell_address zero (2 ^ 64 + 2) 5 Hv Hi) as (_ & _ & _ & H & _).
    exact H.
  - destruct (bram_cell_address (store_u128 zero (BRAM_BASE + 80) 77) (2 ^ 64 + 2) 5 Hv Hi)
      as (_ & _ & _ & _ & _ & H & _).
    rewrite H. change (BRAM_BASE + 5 * 16) with (BRAM_BASE + 80).
    apply load_store_u128. unfold is_uint128. lia.
Defined.

(** C6. A call of [bram_write] makes exactly three stores and nothing else:
    1 to the enable register, [value] to the cell, 0 to the enable register,
    in this order and whatever the memory holds; it never loads. The stores
    are performed: the memory the call leaves is the starting memory with
    the three stores done in this order, the enable register holds 1 after
    the first, the cell holds the bytes of [value] after the second, and the
    enable register holds 0 after the third. *)
Theorem bram_write_three_stores (m : memory) value i :
  events (bram_write value i m) =
    [StoreInt SLV_REG3 1; StoreU128 (index_u128 BRAM_BASE i) value; StoreInt SLV_REG3 0]
  /\ length (events (bram_write value i m)) = 3%nat
  /\ forallb is_store (events (bram_write value i m)) = true
  /\ length (filter is_bram_access (events (bram_write value i m))) = 1%nat
  /\ length (filter (fun e => negb (is_bram_access e)) (events (bram_write value i m)))
     = 2%nat
  /\ (forall m' : memory, events (bram_write value i m') = events (bram_write value i m))
  /\ final (bram_write value i m) =
     store_int
       (store_u128 (store_int m SLV_REG3 1) (index_u128 BRAM_BASE i) value)
       SLV_REG3 0
  /\ final (bram_write value i m) = replay (events (bram_write value i m)) m
  /\ load_int (store_int m SLV_REG3 1) SLV_REG3 = 1
  /\ load_bytes
       (store_u128 (store_int m SLV_REG3 1) (index_u128 BRAM_BASE i) value)
       (index_u128 BRAM_BASE i) 16 = le_split 16 value
  /\ load_int (final (bram_write value i m)) SLV_REG3 = 0
  /\ (is_uint i ->
      register_history SLV_REG3 (events (bram_write value i m)) m = [1; 1; 0]
      /\ load_bytes (final (bram_write value i m)) (index_u128 BRAM_BASE i) 16
         = le_split 16 value)
  /\ (is_uint i -> is_uint128 value ->
      load_u128 (final (bram_write value i m)) (index_u128 BRAM_BASE i) = value).
Proof.
  split; [apply bram_write_events |].
  split; [reflexivity |]. split; [reflexivity |].
  split; [reflexivity |]. split; [reflexivity |].
  split; [intros m'; reflexivity |].
  split; [apply bram_write_final |].
  split; [apply bram_write_replay |].
  split; [apply load_store_int; lia |].
  split.
  { unfold store_u128. rewrite <- (length_le_split 16 value) at 2.
    apply load_store_same. }
  split; [apply bram_write_clears_enable |].
  split.
  - intros [Hi _]. split.
    + now apply bram_write_register_history.
    + now apply bram_write_stores_slot.
  - intros [Hi _] Hv. unfold load_u128.
    rewrite bram_write_stores_slot by exact Hi.
    rewrite le_combine_split. apply Z.mod_small. exact Hv.
Qed.

Lemma bram_write_three_stores_witness :
  (is_uint 2 /\ is_uint128 77
   /\ load_int (store_int zero SLV_REG3 5) SLV_REG3 = 5
   /\ load_u128 (store_int zero SLV_REG3 5) (index_u128 BRAM_BASE 2) = 0)
  /\ register_history SLV_REG3
       (events (bram_write 77 2 (store_int zero SLV_REG3 5)))
       (store_int zero SLV_REG3 5) = [1; 1; 0]
  /\ load_int (final (bram_write 77 2 (store_int zero SLV_REG3 5))) SLV_REG3 = 0
  /\ load_u128 (final (bram_write 77 2 (store_int zero SLV_REG3 5)))
               (index_u128 BRAM_BASE 2) = 77.
Proof.
  assert (Hi : is_uint 2) by (unfold is_uint; lia).
  assert (Hv : is_uint128 77) by (unfold is_uint128; lia).
  destruct (bram_write_three_stores (store_int zero SLV_REG3 5) 77 2)
    as (_ & _ & _ & _ & _ & _ & _ & _ & _ & _ & H0 & Hh & Hc).
  split.
  { split; [exact Hi |]. split; [exact Hv |]. split; vm_compute; reflexivity. }
  split; [exact (proj1 (Hh Hi)) |].
  split; [exact H0 | exact (Hc Hi Hv)].
Defined.

(** C7. For every index, also one past the end of a BRAM of [nslots] cells,
    both functions run the same three accesses, the middle one at
    [BRAM_BASE + 16 * i]; the index is not compared with anything, and the
    calls return normally ([bram_write] nothing, [bram_read] what it loaded). *)
Theorem no_bounds_validation (nslots : Z) (m : memory) value i :
  nslots <= i ->
  BRAM_BASE + 16 * nslots <= index_u128 BRAM_BASE i
  /\ bram_write value i m =
     (tt,
      store_int (store_u128 (store_int m SLV_REG3 1) (BRAM_BASE + 16 * i) value)
                SLV_REG3 0,
      [StoreInt SLV_REG3 1; StoreU128 (BRAM_BASE + 16 * i) value; StoreInt SLV_REG3 0])
  /\ bram_read i m =
     (load_u128 (store_int m SLV_REG3 1) (BRAM_BASE + 16 * i),
      store_int (store_int m SLV_REG3 1) SLV_REG3 0,
      [StoreInt SLV_REG3 1;
       LoadU128 (BRAM_BASE + 16 * i)
                (load_u128 (store_int m SLV_REG3 1) (BRAM_BASE + 16 * i));
       StoreInt SLV_REG3 0]).
Proof.
  intros H. split.
  - unfold index_u128. lia.
  - split; reflexivity.
Qed.

Lemma no_bounds_validation_witness :
  1024 <= 2 ^ 32 - 1
  /\ events (bram_write 1 (2 ^ 32 - 1) zero) =
     [StoreInt SLV_REG3 1; StoreU128 0x10AFFFFFF0 1; StoreInt SLV_REG3 0]
  /\ result (bram_read (2 ^ 32 - 1) zero) = 0.
Proof.
  assert (H : 1024 <= 2 ^ 32 - 1) by lia.
  destruct (no_bounds_validation 1024 zero 1 (2 ^ 32 - 1) H) as (_ & Ew & Er).
  split; [exact H |].
  rewrite Ew, Er. split; reflexivity.
Defined.

(** C8. [bram_read] keeps nothing between calls: when two memories hold the
    same bytes, however different the call histories that led to them, a
    read at the same index returns the same value from both, leaves them
    holding the same bytes and makes the same accesses. *)
Theorem bram_read_depends_on_memory_only (h1 h2 : list call) (s1 s2 : memory) i :
  agree (run h1 s1) (run h2 s2) ->
  result (bram_read i (run h1 s1)) = result (bram_read i (run h2 s2))
  /\ agree (final (bram_read i (run h1 s1))) (final (bram_read i (run h2 s2)))
  /\ events (bram_read i (run h1 s1)) = events (bram_read i (run h2 s2)).
Proof.
  intros H.
  assert (Hen : agree (store_int (run h1 s1) SLV_REG3 1)
                      (store_int (run h2 s2) SLV_REG3 1))
    by (apply agree_store_bytes; exact H).
  assert (Hres : load_u128 (store_int (run h1 s1) SLV_REG3 1) (index_u128 BRAM_BASE i)
                 = load_u128 (store_int (run h2 s2) SLV_REG3 1) (index_u128 BRAM_BASE i)).
  { apply load_u128_ext. intros x _. apply Hen. }
  rewrite !bram_read_result, !bram_read_events, !bram_read_final, Hres.
  split; [reflexivity |]. split; [| reflexivity].
  apply agree_store_bytes. exact Hen.
Qed.

Lemma bram_read_depends_on_memory_only_witness :
  agree (run [CallWrite 7 2; CallRead 0] zero)
        (run [CallRead 1; CallWrite 7 2] (store_int zero SLV_REG3 5))
  /\ result (bram_read 2 (run [CallWrite 7 2; CallRead 0] zero)) = 7
  /\ result (bram_read 2 (run [CallRead 1; CallWrite 7 2] (store_int zero SLV_REG3 5))) = 7.
Proof.
  assert (H : agree (run [CallWrite 7 2; CallRead 0] zero)
                    (run [CallRead 1; CallWrite 7 2] (store_int zero SLV_REG3 5))).
  { assert (Hout : forall (mA mB : memory) x,
              x < SLV_REG3 \/ SLV_REG3 + 4 <= x ->
              (forall y, y < SLV_REG3 \/ SLV_REG3 + 4 <= y -> mA y = mB y) ->
              store_u128 mA (index_u128 BRAM_BASE 2) 7 x
              = store_u128 mB (index_u128 BRAM_BASE 2) 7 x).
    { intros mA mB x Hx HAB.
      destruct (Z_lt_ge_dec x (index_u128 BRAM_BASE 2)) as [Hlt | Hge];
        [| destruct (Z_lt_ge_dec x (index_u128 BRAM_BASE 2 + 16)) as [Hin | Hup]].
      - rewrite !store_u128_outside by lia. now apply HAB.
      - apply store_bytes_inside. rewrite length_le_split. lia.
      - rewrite !store_u128_outside by lia. now apply HAB. }
    intros x. cbn [run fold_left run_call].
    rewrite !bram_read_final, !bram_write_final.
    destruct (Z_lt_ge_dec x SLV_REG3) as [Hlt | Hge];
      [| destruct (Z_lt_ge_dec x (SLV_REG3 + 4)) as [Hin | Hup]].
    - rewrite !store_int_outside by lia.
      apply Hout; [lia |]. intros y Hy. now rewrite !store_int_outside by lia.
    - apply store_bytes_inside. rewrite length_le_split. lia.
    - rewrite !store_int_outside by lia.
      apply Hout; [lia |]. intros y Hy. now rewrite !store_int_outside by lia. }
  split; [exact H |].
  destruct (bram_read_depends_on_memory_only
              [CallWrite 7 2; CallRead 0] [CallRead 1; CallWrite 7 2]
              zero (store_int zero SLV_REG3 5) 2 H) as (E & _ & _).
  rewrite <- E. split; vm_compute; reflexivity.
Defined.

(** C9. When a call of [bram_write] or [bram_read] returns, [SLV_REG3] holds
    0, whatever it held before; so a memory with the enable register
    cleared stays so across every sequence of calls. *)
Theorem enable_cleared_after_call (m : memory) value i :
  load_int (final (bram_write value i m)) SLV_REG3 = 0
  /\ load_int (final (bram_read i m)) SLV_REG3 = 0
  /\ (forall h, h <> [] -> load_int (run h m) SLV_REG3 = 0)
  /\ (forall h, load_int m SLV_REG3 = 0 -> load_int (run h m) SLV_REG3 = 0).
Proof.
  split; [apply bram_write_clears_enable |].
  split; [apply bram_read_clears_enable |].
  split.
  - intros h Hh. destruct (exists_last Hh) as (h' & c & ->).
    rewrite run_snoc. apply run_call_clears_enable.
  - intros h Hm. now apply run_preserves_enable_clear.
Qed.

Lemma enable_cleared_after_call_witness :
  load_int (store_int zero SLV_REG3 1) SLV_REG3 = 1
  /\ load_int (final (bram_write 9 4 (store_int zero SLV_REG3 1))) SLV_REG3 = 0
  /\ load_int (final (bram_read 4 (store_int zero SLV_REG3 1))) SLV_REG3 = 0
  /\ load_int (run [CallRead 1; CallWrite 3 0x0F000000] zero) SLV_REG3 = 0.
Proof.
  destruct (enable_cleared_after_call (store_int zero SLV_REG3 1) 9 4)
    as (Hw & Hr & _ & _).
  destruct (enable_cleared_after_call zero 0 0) as (_ & _ & _ & Hinv).
  split; [vm_compute; reflexivity |].
  split; [exact Hw |].
  split; [exact Hr |].
  apply Hinv. vm_compute. reflexivity.
Defined.

(** C10. A write at index [i] leaves the 128-bit cell of every other index
    [j] as it was. *)
Theorem bram_write_other_cell (m : memory) v i j :
  is_uint i -> is_uint j -> i <> j ->
  load_u128 (final (bram_write v i m)) (index_u128 BRAM_BASE j)
  = load_u128 m (index_u128 BRAM_BASE j)
  /\ load_bytes (final (bram_write v i m)) (index_u128 BRAM_BASE j) 16
     = load_bytes m (index_u128 BRAM_BASE j) 16.
Proof.
  intros [Hi _] [Hj _] Hne.
  pose proof (slot_above_registers j Hj) as Hs.
  assert (Hb : forall x,
            index_u128 BRAM_BASE j <= x < index_u128 BRAM_BASE j + 16 ->
            final (bram_write v i m) x = m x).
  { intros x Hx. apply bram_write_frame; [lia |].
    unfold index_u128 in *. lia. }
  split.
  - now apply load_u128_ext.
  - now apply load_bytes_ext.
Qed.

Lemma bram_write_other_cell_witness :
  (is_uint 1 /\ is_uint 2 /\ 1 <> 2)
  /\ load_u128 (final (bram_write 9 1 (store_u128 zero (index_u128 BRAM_BASE 2) 77)))
               (index_u128 BRAM_BASE 2) = 77.
Proof.
  assert (H1 : is_uint 1) by (unfold is_uint; lia).
  assert (H2 : is_uint 2) by (unfold is_uint; lia).
  assert (Hne : 1 <> 2) by lia.
  split; [exact (conj H1 (conj H2 Hne)) |].
  destruct (bram_write_other_cell
              (store_u128 zero (index_u128 BRAM_BASE 2) 77) 9 1 2 H1 H2 Hne) as [E _].
  rewrite E. apply load_store_u128. unfold is_uint128. lia.
Defined.


(** ** Further properties of [createUint128_t] *)

Lemma createUint128_t_value high low :
  is_uint64 high -> is_uint64 low ->
  createUint128_t high low = high * 2 ^ 64 + low.
Proof.
  intros Hh Hl. unfold createUint128_t.
  rewrite (Z.mod_small (Z.shiftl high 64)).
  - now apply lor_shiftl64_add.
  - rewrite Z.shiftl_mul_pow2 by lia. unfold is_uint64 in Hh. lia.
Qed.

(** X1. Two pairs of 64-bit halves that give the same 128-bit value are the
    same pair. *)
Theorem createUint128_t_injective h1 l1 h2 l2 :
  is_uint64 h1 -> is_uint64 l1 -> is_uint64 h2 -> is_uint64 l2 ->
  createUint128_t h1 l1 = createUint128_t h2 l2 ->
  h1 = h2 /\ l1 = l2.
Proof.
  intros Hh1 Hl1 Hh2 Hl2.
  rewrite !createUint128_t_value by assumption.
  unfold is_uint64 in *. lia.
Qed.

Lemma createUint128_t_injective_witness :
  (is_uint64 3 /\ is_uint64 4
   /\ createUint128_t 3 4 = createUint128_t (1 + 2) (2 + 2))
  /\ 3 = 1 + 2 /\ 4 = 2 + 2.
Proof.
  assert (H3 : is_uint64 3) by (unfold is_uint64; lia).
  assert (H4 : is_uint64 4) by (unfold is_uint64; lia).
  assert (E : createUint128_t 3 4 = createUint128_t (1 + 2) (2 + 2))
    by reflexivity.
  split; [exact (conj H3 (conj H4 E)) |].
  exact (createUint128_t_injective 3 4 (1 + 2) (2 + 2) H3 H4 H3 H4 E).
Defined.

(** X2. Every 128-bit value is built from its own halves: the upper 64 bits
    as [high] and the lower 64 bits as [low], both 64-bit values. *)
Theorem createUint128_t_of_halves v :
  is_uint128 v ->
  is_uint64 (Z.shiftr v 64)
  /\ is_uint64 (Z.land v (Z.ones 64))
  /\ createUint128_t (Z.shiftr v 64) (Z.land v (Z.ones 64)) = v.
Proof.
  intros Hv. unfold is_uint128 in Hv.
  rewrite Z.shiftr_div_pow2, Z.land_ones by lia.
  assert (Hh : is_uint64 (v / 2 ^ 64)).
  { unfold is_uint64. split.
    - apply Z.div_pos; lia.
    - apply Z.div_lt_upper_bound; lia. }
  assert (Hl : is_uint64 (v mod 2 ^ 64))
    by (unfold is_uint64; apply Z.mod_pos_bound; lia).
  split; [exact Hh |]. split; [exact Hl |].
  rewrite createUint128_t_value by assumption.
  pose proof (Z.div_mod v (2 ^ 64)). lia.
Qed.

Lemma createUint128_t_of_halves_witness :
  is_uint128 (5 * 2 ^ 64 + 9)
  /\ Z.shiftr (5 * 2 ^ 64 + 9) 64 = 5
  /\ Z.land (5 * 2 ^ 64 + 9) (Z.ones 64) = 9
  /\ createUint128_t 5 9 = 5 * 2 ^ 64 + 9.
Proof.
  assert (Hv : is_uint128 (5 * 2 ^ 64 + 9)) by (unfold is_uint128; lia).
  destruct (createUint128_t_of_halves (5 * 2 ^ 64 + 9) Hv) as (_ & _ & E).
  split; [exact Hv |].
  split; [reflexivity |]. split; [reflexivity |].
  exact E.
Defined.

(** X3. The 128-bit values are ordered as the pairs are: first by [high],
    then by [low]. *)
Theorem createUint128_t_order h1 l1 h2 l2 :
  is_uint64 h1 -> is_uint64 l1 -> is_uint64 h2 -> is_uint64 l2 ->
  (createUint128_t h1 l1 < createUint128_t h2 l2
   <-> h1 < h2 \/ (h1 = h2 /\ l1 < l2)).
Proof.
  intros Hh1 Hl1 Hh2 Hl2.
  rewrite !createUint128_t_value by assumption.
  unfold is_uint64 in *. lia.
Qed.

Lemma createUint128_t_order_witness :
  (is_uint64 1 /\ is_uint64 (2 ^ 64 - 1) /\ is_uint64 2 /\ is_uint64 0)
  /\ createUint128_t 1 (2 ^ 64 - 1) < createUint128_t 2 0.
Proof.
  assert (H1 : is_uint64 1) by (unfold is_uint64; lia).
  assert (Hm : is_uint64 (2 ^ 64 - 1)) by (unfold is_uint64; lia).
  assert (H2 : is_uint64 2) by (unfold is_uint64; lia).
  assert (H0 : is_uint64 0) by (unfold is_uint64; lia).
  split; [exact (conj H1 (conj Hm (conj H2 H0))) |].
  apply (createUint128_t_order 1 (2 ^ 64 - 1) 2 0 H1 Hm H2 H0). lia.
Defined.

(** ** How calls compose *)

(** The bytes of the enable register after a call do not depend on the
    memory the call started from. *)
Lemma bram_write_in_enable (m : memory) v i x :
  SLV_REG3 <= x < SLV_REG3 + 4 ->
  final (bram_write v i m) x = store_int zero SLV_REG3 0 x.
Proof.
  intros Hx. rewrite bram_write_final. unfold store_int at 1 3.
  apply store_bytes_inside. rewrite length_le_split. lia.
Qed.

Lemma bram_read_in_enable (m : memory) i x :
  SLV_REG3 <= x < SLV_REG3 + 4 ->
  final (bram_read i m) x = store_int zero SLV_REG3 0 x.
Proof.
  intros Hx. rewrite bram_read_final. unfold store_int at 1 3.
  apply store_bytes_inside. rewrite length_le_split. lia.
Qed.

(** Nor do the bytes of the written cell. *)
Lemma bram_write_in_cell (m : memory) v i x :
  x < SLV_REG3 \/ SLV_REG3 + 4 <= x ->
  index_u128 BRAM_BASE i <= x < index_u128 BRAM_BASE i + 16 ->
  final (bram_write v i m) x = store_u128 zero (index_u128 BRAM_BASE i) v x.
Proof.
  intros Hr Hx. rewrite bram_write_final.
  rewrite store_int_outside by exact Hr.
  unfold store_u128. apply store_bytes_inside. rewrite length_le_split. lia.
Qed.

(** X4. A second write at the same index replaces the first: the memory is
    byte for byte what the second write alone would have left. *)
Theorem bram_write_overwrites (m : memory) v1 v2 i :
  agree (final (bram_write v2 i (final (bram_write v1 i m))))
        (final (bram_write v2 i m)).
Proof.
  intros x. region x SLV_REG3 4.
  - region x (index_u128 BRAM_BASE i) 16.
    + now rewrite !bram_write_frame by lia.
    + now rewrite !bram_write_in_cell by lia.
    + now rewrite !bram_write_frame by lia.
  - now rewrite !bram_write_in_enable by lia.
  - region x (index_u128 BRAM_BASE i) 16.
    + now rewrite !bram_write_frame by lia.
    + now rewrite !bram_write_in_cell by lia.
    + now rewrite !bram_write_frame by lia.
Qed.

(** X5. Writes at two different indices can be done in either order: both
    orders leave the same memory, byte for byte. *)
Theorem bram_write_commutes (m : memory) v1 v2 i j :
  is_uint i -> is_uint j -> i <> j ->
  agree (final (bram_write v2 j (final (bram_write v1 i m))))
        (final (bram_write v1 i (final (bram_write v2 j m)))).
Proof.
  intros [Hi _] [Hj _] Hne x.
  pose proof (slot_above_registers i Hi) as Hsi.
  pose proof (slot_above_registers j Hj) as Hsj.
  assert (Hd : index_u128 BRAM_BASE i + 16 <= index_u128 BRAM_BASE j
               \/ index_u128 BRAM_BASE j + 16 <= index_u128 BRAM_BASE i)
    by (unfold index_u128; lia).
  region x SLV_REG3 4.
  - now rewrite !bram_write_frame by lia.
  - now rewrite !bram_write_in_enable by lia.
  - region x (index_u128 BRAM_BASE i) 16;
      [| rewrite (bram_write_frame _ v2 j) by lia;
         rewrite (bram_write_in_cell _ v1 i) by lia;
         rewrite (bram_write_in_cell _ v1 i) by lia; reflexivity |];
      (region x (index_u128 BRAM_BASE j) 16;
       [ now rewrite !bram_write_frame by lia
       | rewrite (bram_write_in_cell _ v2 j) by lia;
         rewrite (bram_write_frame _ v1 i) by lia;
         rewrite (bram_write_in_cell _ v2 j) by lia; reflexivity
       | now rewrite !bram_write_frame by lia ]).
Qed.

Lemma bram_write_commutes_witness :
  (is_uint 1 /\ is_uint 6 /\ 1 <> 6)
  /\ cells_of (final (bram_write 8 6 (final (bram_write 7 1 zero)))) 1 = 7
  /\ cells_of (final (bram_write 7 1 (final (bram_write 8 6 zero)))) 1 = 7.
Proof.
  assert (H1 : is_uint 1) by (unfold is_uint; lia).
  assert (H6 : is_uint 6) by (unfold is_uint; lia).
  assert (Hne : 1 <> 6) by lia.
  pose proof (bram_write_commutes zero 7 8 1 6 H1 H6 Hne) as E.
  split; [exact (conj H1 (conj H6 Hne)) |].
  assert (L : cells_of (final (bram_write 8 6 (final (bram_write 7 1 zero)))) 1
              = cells_of (final (bram_write 7 1 (final (bram_write 8 6 zero)))) 1).
  { unfold cells_of. apply load_u128_ext. intros x _. apply E. }
  rewrite L. split; vm_compute; reflexivity.
Defined.

(** X6. A read changes no cell and no later read: all it leaves behind is
    the enable register set to 0, exactly as the single store
    [SLV_REG3 := 0] would. *)
Theorem bram_read_nondestructive (m : memory) i j :
  is_uint j ->
  agree (final (bram_read i m)) (store_int m SLV_REG3 0)
  /\ cells_of (final (bram_read i m)) j = cells_of m j
  /\ result (bram_read j (final (bram_read i m))) = result (bram_read j m).
Proof.
  intros [Hj _].
  pose proof (slot_above_registers j Hj) as Hs.
  assert (Hc : cells_of (final (bram_read i m)) j = cells_of m j).
  { unfold cells_of. apply load_u128_ext. intros x Hx.
    apply bram_read_frame. lia. }
  split; [| split; [exact Hc |]].
  - intros x. region x SLV_REG3 4.
    + rewrite bram_read_frame by lia. now rewrite store_int_outside by lia.
    + rewrite bram_read_in_enable by lia.
      unfold store_int. apply store_bytes_inside. rewrite length_le_split. lia.
    + rewrite bram_read_frame by lia. now rewrite store_int_outside by lia.
  - rewrite !bram_read_loads_slot by exact Hj. exact Hc.
Qed.

Lemma bram_read_nondestructive_witness :
  is_uint 4
  /\ result (bram_read 4 (final (bram_read 9 (final (bram_write 77 4 zero))))) = 77.
Proof.
  assert (H4 : is_uint 4) by (unfold is_uint; lia).
  destruct (bram_read_nondestructive (final (bram_write 77 4 zero)) 9 4 H4)
    as (_ & _ & E).
  split; [exact H4 |].
  rewrite E. vm_compute. reflexivity.
Defined.

(** X7. Neither function looks at the enable register: from two memories
    that differ at most in [SLV_REG3], a call returns the same value, makes
    the same accesses and leaves memories that are equal everywhere,
    [SLV_REG3] included. *)
Theorem calls_ignore_enable_state (m1 m2 : memory) v i :
  is_uint i ->
  (forall x, x < SLV_REG3 \/ SLV_REG3 + 4 <= x -> m1 x = m2 x) ->
  result (bram_read i m1) = result (bram_read i m2)
  /\ events (bram_read i m1) = events (bram_read i m2)
  /\ agree (final (bram_read i m1)) (final (bram_read i m2))
  /\ events (bram_write v i m1) = events (bram_write v i m2)
  /\ agree (final (bram_write v i m1)) (final (bram_write v i m2)).
Proof.
  intros [Hi _] H.
  pose proof (slot_above_registers i Hi) as Hs.
  assert (Hres : result (bram_read i m1) = result (bram_read i m2)).
  { rewrite !bram_read_loads_slot by exact Hi.
    apply load_u128_ext. intros x Hx. apply H. lia. }
  split; [exact Hres |]. split.
  { rewrite !bram_read_events. rewrite <- !bram_read_result, Hres. reflexivity. }
  split.
  { intros x. region x SLV_REG3 4.
    - rewrite !bram_read_frame by lia. apply H. lia.
    - now rewrite !bram_read_in_enable by lia.
    - rewrite !bram_read_frame by lia. apply H. lia. }
  split; [reflexivity |].
  intros x. region x SLV_REG3 4.
  - rewrite !bram_write_frame by lia. apply H. lia.
  - now rewrite !bram_write_in_enable by lia.
  - region x (index_u128 BRAM_BASE i) 16.
    + rewrite !bram_write_frame by lia. apply H. lia.
    + now rewrite !bram_write_in_cell by lia.
    + rewrite !bram_write_frame by lia. apply H. lia.
Qed.

Lemma calls_ignore_enable_state_witness :
  (is_uint 3
   /\ load_int zero SLV_REG3 = 0
   /\ load_int (store_int zero SLV_REG3 1) SLV_REG3 = 1)
  /\ result (bram_read 3 zero) = result (bram_read 3 (store_int zero SLV_REG3 1))
  /\ load_int (final (bram_write 5 3 (store_int zero SLV_REG3 1))) SLV_REG3
     = load_int (final (bram_write 5 3 zero)) SLV_REG3.
Proof.
  assert (H3 : is_uint 3) by (unfold is_uint; lia).
  assert (H : forall x, x < SLV_REG3 \/ SLV_REG3 + 4 <= x ->
                        zero x = store_int zero SLV_REG3 1 x)
    by (intros x Hx; now rewrite store_int_outside by exact Hx).
  destruct (calls_ignore_enable_state zero (store_int zero SLV_REG3 1) 5 3 H3 H)
    as (Er & _ & _ & _ & Ew).
  split; [split; [exact H3 | split; vm_compute; reflexivity] |].
  split; [exact Er |].
  apply load_int_ext. intros x _. symmetry. apply Ew.
Defined.

(** ** The accessor as an array of 128-bit cells *)

Lemma cells_of_write (m : memory) v i j :
  is_uint128 v -> is_uint i -> is_uint j ->
  cells_of (final (bram_write v i m)) j = array_update (cells_of m) i v j.
Proof.
  intros Hv [Hi _] [Hj _]. unfold array_update, cells_of.
  destruct (Z.eqb_spec j i) as [-> | Hne].
  - unfold load_u128. rewrite bram_write_stores_slot by exact Hi.
    rewrite le_combine_split. apply Z.mod_small. exact Hv.
  - pose proof (slot_above_registers j Hj) as Hs.
    apply load_u128_ext. intros x Hx.
    apply bram_write_frame; [lia |]. unfold index_u128 in *. lia.
Qed.

Lemma cells_of_read (m : memory) i j :
  is_uint j -> cells_of (final (bram_read i m)) j = cells_of m j.
Proof.
  intros [Hj _]. pose proof (slot_above_registers j Hj) as Hs.
  unfold cells_of. apply load_u128_ext. intros x Hx.
  apply bram_read_frame. lia.
Qed.

Lemma array_update_ext (a b : Z -> Z) i v :
  (forall j, is_uint j -> a j = b j) ->
  forall j, is_uint j -> array_update a i v j = array_update b i v j.
Proof.
  intros H j Hj. unfold array_update.
  destruct (Z.eqb j i); [reflexivity | now apply H].
Qed.

Lemma array_results_ext h : forall a b : Z -> Z,
  Forall call_ok h ->
  (forall j, is_uint j -> a j = b j) ->
  array_results h a = array_results h b.
Proof.
  induction h as [| c h IH]; intros a b Hok Hab; [reflexivity |].
  inversion Hok as [| c' h' Hc Hh]; subst.
  destruct c as [v i | i]; cbn [array_results call_ok] in *.
  - apply IH; [exact Hh |]. now apply array_update_ext.
  - f_equal; [now apply Hab | now apply IH].
Qed.

Lemma array_run_ext h : forall a b : Z -> Z,
  (forall j, is_uint j -> a j = b j) ->
  forall j, is_uint j -> array_run h a j = array_run h b j.
Proof.
  induction h as [| c h IH]; intros a b Hab; [exact Hab |].
  destruct c as [v i | i]; cbn [array_run].
  - apply IH. now apply array_update_ext.
  - now apply IH.
Qed.

(** X8. Over any sequence of calls with arguments in the range of the
    parameter types, the accessor behaves as an array of 128-bit cells
    indexed by [unsigned int]: each read returns the value last written at
    its index (or the cell's initial content), and the cells end as the
    array does. *)
Theorem accessor_refines_array h : forall m : memory,
  Forall call_ok h ->
  run_results h m = array_results h (cells_of m)
  /\ (forall j, is_uint j -> cells_of (run h m) j = array_run h (cells_of m) j).
Proof.
  induction h as [| c h IH]; intros m Hok.
  - split; [reflexivity | intros j _; reflexivity].
  - inversion Hok as [| c' h' Hc Hh]; subst.
    destruct c as [v i | i]; cbn [call_ok] in Hc.
    + destruct Hc as [Hv Hi].
      destruct (IH (final (bram_write v i m)) Hh) as [Hres Hrun].
      cbn [run_results array_results array_run run fold_left run_call].
      split.
      * rewrite Hres. apply array_results_ext; [exact Hh |].
        intros j Hj. now apply cells_of_write.
      * intros j Hj. unfold run in Hrun. rewrite Hrun by exact Hj.
        apply array_run_ext; [| exact Hj].
        intros k Hk. now apply cells_of_write.
    + destruct (IH (final (bram_read i m)) Hh) as [Hres Hrun].
      cbn [run_results array_results array_run run fold_left run_call].
      split.
      * f_equal.
        { destruct Hc as [Hi _]. now apply bram_read_loads_slot. }
        rewrite Hres. apply array_results_ext; [exact Hh |].
        intros j Hj. now apply cells_of_read.
      * intros j Hj. unfold run in Hrun. rewrite Hrun by exact Hj.
        apply array_run_ext; [| exact Hj].
        intros k Hk. now apply cells_of_read.
Qed.

Lemma accessor_refines_array_witness :
  Forall call_ok [CallWrite 7 2; CallRead 2; CallWrite 9 2; CallRead 0; CallRead 2]
  /\ run_results [CallWrite 7 2; CallRead 2; CallWrite 9 2; CallRead 0; CallRead 2]
                 (store_u128 zero BRAM_BASE 5)
     = [7; 5; 9].
Proof.
  assert (Hok : Forall call_ok
                  [CallWrite 7 2; CallRead 2; CallWrite 9 2; CallRead 0; CallRead 2]).
  { repeat constructor; unfold is_uint128, is_uint; lia. }
  split; [exact Hok |].
  destruct (accessor_refines_array _ (store_u128 zero BRAM_BASE 5) Hok) as [E _].
  rewrite E. vm_compute. reflexivity.
Defined.

(** ** The accesses of a sequence of calls *)

Lemma call_events_shape c (m : memory) :
  exists e, is_bram_access e = true
            /\ stores_to SLV_REG3 e = match c with
                                      | CallWrite _ i =>
                                          overlaps (index_u128 BRAM_BASE i) 16 SLV_REG3 4
                                      | CallRead _ => false
                                      end
            /\ call_events c m = [StoreInt SLV_REG3 1; e; StoreInt SLV_REG3 0].
Proof.
  destruct c as [v i | i]; cbn [call_events].
  - rewrite bram_write_events. eexists. repeat split; reflexivity.
  - rewrite bram_read_events. eexists. repeat split; reflexivity.
Qed.

Lemma values_written_app r es1 es2 :
  values_written r (es1 ++ es2) = values_written r es1 ++ values_written r es2.
Proof. unfold values_written. apply flat_map_app. Qed.

(** The shape of the log of a sequence of calls. *)
Lemma run_events_shape h : forall m : memory,
  Forall call_ok h ->
  run_events h m =
    flat_map (fun e => [StoreInt SLV_REG3 1; e; StoreInt SLV_REG3 0])
             (filter is_bram_access (run_events h m))
  /\ length (filter is_bram_access (run_events h m)) = length h
  /\ values_written SLV_REG3 (run_events h m) = flat_map (fun _ => [1; 0]) h
  /\ filter (stores_to SLV_REG3) (run_events h m) =
     flat_map (fun _ => [StoreInt SLV_REG3 1; StoreInt SLV_REG3 0]) h.
Proof.
  induction h as [| c h IH]; intros m Hok.
  - repeat split; reflexivity.
  - inversion Hok as [| c' h' Hc Hh]; subst.
    destruct (IH (run_call c m) Hh) as (I1 & I2 & I3 & I4).
    destruct (call_events_shape c m) as (e & He & Hst & Hev).
    assert (Hst' : stores_to SLV_REG3 e = false).
    { rewrite Hst. destruct c as [v i | i]; [| reflexivity].
      destruct Hc as [_ [Hi _]].
      pose proof (slot_above_registers i Hi) as Hs.
      unfold overlaps. apply andb_false_iff. left. apply Z.ltb_ge. exact Hs. }
    cbn [run_events]. rewrite Hev.
    rewrite values_written_app, !filter_app.
    cbn [filter is_bram_access stores_to flat_map length app].
    rewrite He, Hst'.
    replace (overlaps SLV_REG3 4 SLV_REG3 4) with true by reflexivity.
    cbn [flat_map app length].
    rewrite <- I1, I2, I3, I4.
    repeat split.
    destruct e; try discriminate He; cbn [values_written flat_map app];
      rewrite Z.eqb_refl; reflexivity.
Qed.

Lemma replay_app es1 es2 (m : memory) :
  replay (es1 ++ es2) m = replay es2 (replay es1 m).
Proof. unfold replay. apply fold_left_app. Qed.

Lemma register_history_app r es1 : forall es2 (m : memory),
  register_history r (es1 ++ es2) m =
  register_history r es1 m ++ register_history r es2 (replay es1 m).
Proof.
  induction es1 as [| e es1 IH]; intros es2 m; [reflexivity |].
  cbn [app register_history]. rewrite IH. reflexivity.
Qed.

Lemma call_events_replay c (m : memory) :
  replay (call_events c m) m = run_call c m.
Proof. destruct c; reflexivity. Qed.

Lemma call_register_history c (m : memory) :
  call_ok c -> register_history SLV_REG3 (call_events c m) m = [1; 1; 0].
Proof.
  destruct c as [v i | i]; cbn [call_ok call_events].
  - intros [_ [Hi _]]. now apply bram_write_register_history.
  - intros _. apply bram_read_register_history.
Qed.

(** The memory a sequence of calls leaves is the starting memory with the
    logged accesses done in order. *)
Lemma run_replay h : forall m : memory, run h m = replay (run_events h m) m.
Proof.
  induction h as [| c h IH]; intros m; [reflexivity |].
  cbn [run_events]. rewrite replay_app, call_events_replay, <- IH.
  reflexivity.
Qed.

Lemma run_register_history h : forall m : memory,
  Forall call_ok h ->
  register_history SLV_REG3 (run_events h m) m = flat_map (fun _ => [1; 1; 0]) h.
Proof.
  induction h as [| c h IH]; intros m Hok; [reflexivity |].
  inversion Hok as [| c' h' Hc Hh]; subst.
  cbn [run_events flat_map].
  rewrite register_history_app, call_events_replay.
  rewrite (call_register_history c m Hc), (IH _ Hh). reflexivity.
Qed.

(** X9. In the accesses of any sequence of well-typed calls, every BRAM
    access stands directly between a store of 1 and a store of 0 to the
    enable register, and there is nothing else: one BRAM access per call,
    the enable register is given 1, 0, 1, 0, ... and no BRAM access reaches
    its bytes. The log is what was done to the memory: the memory the
    sequence leaves is the starting memory with the logged accesses done in
    order, and along them the enable register holds 1 after the first store
    of each call and while the cell is accessed, and 0 after the last. *)
Theorem run_events_bracketed h : forall m : memory,
  Forall call_ok h ->
  run_events h m =
    flat_map (fun e => [StoreInt SLV_REG3 1; e; StoreInt SLV_REG3 0])
             (filter is_bram_access (run_events h m))
  /\ length (filter is_bram_access (run_events h m)) = length h
  /\ values_written SLV_REG3 (run_events h m) = flat_map (fun _ => [1; 0]) h
  /\ filter (stores_to SLV_REG3) (run_events h m) =
     flat_map (fun _ => [StoreInt SLV_REG3 1; StoreInt SLV_REG3 0]) h
  /\ run h m = replay (run_events h m) m
  /\ register_history SLV_REG3 (run_events h m) m
     = flat_map (fun _ => [1; 1; 0]) h
  /\ (h <> [] -> load_int (run h m) SLV_REG3 = 0).
Proof.
  intros m Hok.
  destruct (run_events_shape h m Hok) as (A1 & A2 & A3 & A4).
  split; [exact A1 |]. split; [exact A2 |].
  split; [exact A3 |]. split; [exact A4 |].
  split; [apply run_replay |].
  split; [now apply run_register_history |].
  intros Hne. destruct (exists_last Hne) as (h' & c & ->).
  rewrite run_snoc. apply run_call_clears_enable.
Qed.

Lemma run_events_bracketed_witness :
  (Forall call_ok [CallWrite 7 2; CallRead 2]
   /\ load_int (store_int zero SLV_REG3 5) SLV_REG3 = 5)
  /\ run_events [CallWrite 7 2; CallRead 2] zero =
     [StoreInt SLV_REG3 1; StoreU128 (BRAM_BASE + 32) 7; StoreInt SLV_REG3 0;
      StoreInt SLV_REG3 1; LoadU128 (BRAM_BASE + 32) 7; StoreInt SLV_REG3 0]
  /\ values_written SLV_REG3 (run_events [CallWrite 7 2; CallRead 2] zero)
     = [1; 0; 1; 0]
  /\ register_history SLV_REG3
       (run_events [CallWrite 7 2; CallRead 2] (store_int zero SLV_REG3 5))
       (store_int zero SLV_REG3 5)
     = [1; 1; 0; 1; 1; 0]
  /\ load_int (run [CallWrite 7 2; CallRead 2] (store_int zero SLV_REG3 5))
              SLV_REG3 = 0
  /\ cells_of (replay (run_events [CallWrite 7 2; CallRead 2] zero) zero) 2 = 7.
Proof.
  assert (Hok : Forall call_ok [CallWrite 7 2; CallRead 2]).
  { repeat constructor; unfold is_uint128, is_uint; lia. }
  destruct (run_events_bracketed _ zero Hok) as (E & _ & Hv & _ & Hrp & _).
  destruct (run_events_bracketed _ (store_int zero SLV_REG3 5) Hok)
    as (_ & _ & _ & _ & _ & Hh & H0).
  split; [split; [exact Hok | vm_compute; reflexivity] |].
  split; [rewrite E; vm_compute; reflexivity |].
  split; [exact Hv |].
  split; [exact Hh |].
  split; [apply H0; discriminate |].
  rewrite <- Hrp. vm_compute. reflexivity.
Defined.

(** ** Where the cells are *)

(** X10. For every [unsigned int] index the 16 bytes of the cell lie inside
    the 64-bit address space, at a multiple of 16, at or above [BRAM_BASE]
    and above the four control registers; cells of different indices share
    no byte. *)
Theorem cell_layout i j :
  is_uint i -> is_uint j ->
  BRAM_BASE <= index_u128 BRAM_BASE i
  /\ index_u128 BRAM_BASE i + 16 <= 2 ^ 64
  /\ index_u128 BRAM_BASE i mod 16 = 0
  /\ SLV_REG3 + 4 <= index_u128 BRAM_BASE i
  /\ (i <> j ->
      index_u128 BRAM_BASE i + 16 <= index_u128 BRAM_BASE j
      \/ index_u128 BRAM_BASE j + 16 <= index_u128 BRAM_BASE i)
  /\ (index_u128 BRAM_BASE i = index_u128 BRAM_BASE j -> i = j)
  /\ index_u128 BRAM_BASE (2 ^ 32 - 1) = 0x10AFFFFFF0.
Proof.
  unfold is_uint. intros Hi Hj.
  assert (Hm : index_u128 BRAM_BASE i mod 16 = 0).
  { unfold index_u128, BRAM_BASE.
    replace (2952790016 + 16 * i) with (0 + (184549376 + i) * 16) by lia.
    rewrite Z.mod_add by lia. reflexivity. }
  unfold index_u128, BRAM_BASE, SLV_REG3, SLV_REG0 in *.
  repeat split; try lia.
Qed.

Lemma cell_layout_witness :
  (is_uint 0 /\ is_uint (2 ^ 32 - 1))
  /\ index_u128 BRAM_BASE 0 = BRAM_BASE
  /\ index_u128 BRAM_BASE (2 ^ 32 - 1) + 16 <= 2 ^ 64.
Proof.
  assert (H0 : is_uint 0) by (unfold is_uint; lia).
  assert (Hm : is_uint (2 ^ 32 - 1)) by (unfold is_uint; lia).
  destruct (cell_layout (2 ^ 32 - 1) 0 Hm H0) as (_ & Hb & _).
  split; [exact (conj H0 Hm) |].
  split; [reflexivity | exact Hb].
Defined.

(** ** [main] *)

Lemma main_accesses_unfold (m : memory) :
  main_accesses m =
  let m1 := store_int m SLV_REG0 42 in
  let value2 := createUint128_t 1 2 in
  let m2 := final (bram_write value2 0 m1) in
  ((load_int m1 SLV_REG0, value2, result (bram_read 0 m2)),
   final (bram_read 0 m2),
   [StoreInt SLV_REG0 42; LoadInt SLV_REG0 (load_int m1 SLV_REG0)]
   ++ events (bram_write value2 0 m1) ++ events (bram_read 0 m2)).
Proof. reflexivity. Qed.

Lemma main_value3 (m : memory) :
  result (bram_read 0 (final (bram_write (2 ^ 64 + 2) 0 m))) = 2 ^ 64 + 2.
Proof.
  rewrite bram_read_loads_slot by lia.
  unfold load_u128. rewrite bram_write_stores_slot by lia.
  rewrite le_combine_split. reflexivity.
Qed.

Lemma main_accesses_result (m : memory) :
  result (main_accesses m) = (42, 2 ^ 64 + 2, 2 ^ 64 + 2).
Proof.
  rewrite main_accesses_unfold. cbv zeta. unfold result at 1. cbn [fst snd].
  rewrite load_store_int by lia.
  change (createUint128_t 1 2) with (2 ^ 64 + 2).
  rewrite main_value3. reflexivity.
Qed.

Lemma main_accesses_events (m : memory) :
  events (main_accesses m) =
  [ StoreInt SLV_REG0 42; LoadInt SLV_REG0 42;
    StoreInt SLV_REG3 1; StoreU128 BRAM_BASE (2 ^ 64 + 2); StoreInt SLV_REG3 0;
    StoreInt SLV_REG3 1; LoadU128 BRAM_BASE (2 ^ 64 + 2); StoreInt SLV_REG3 0 ].
Proof.
  rewrite main_accesses_unfold. cbv zeta. unfold events at 1. cbn [fst snd].
  rewrite load_store_int by lia.
  change (createUint128_t 1 2) with (2 ^ 64 + 2).
  rewrite bram_write_events, bram_read_events.
  rewrite <- bram_read_result, main_value3. reflexivity.
Qed.

Lemma main_accesses_final (m : memory) :
  final (main_accesses m) =
  final (bram_read 0 (final (bram_write (2 ^ 64 + 2) 0 (store_int m SLV_REG0 42)))).
Proof. reflexivity. Qed.

Lemma main_accesses_frame (m : memory) x :
  x < SLV_REG3 \/ SLV_REG3 + 4 <= x ->
  x < BRAM_BASE \/ BRAM_BASE + 16 <= x ->
  final (main_accesses m) x = store_int m SLV_REG0 42 x.
Proof.
  intros Hr Hc. rewrite main_accesses_final.
  rewrite bram_read_frame by exact Hr.
  apply bram_write_frame; [exact Hr |].
  unfold index_u128. lia.
Qed.

(** X11. From any memory, the accesses of [main] read back what they wrote:
    [value1] is 42 and [value3] equals [value2], the 128-bit value with
    halves 1 and 2. They leave [SLV_REG0] at 42, the enable register at 0
    and cell 0 holding the value, and change no byte outside [SLV_REG0],
    [SLV_REG3] and cell 0. *)
Theorem main_accesses_behaviour (m : memory) :
  result (main_accesses m) = (42, 2 ^ 64 + 2, 2 ^ 64 + 2)
  /\ events (main_accesses m) =
     [ StoreInt SLV_REG0 42; LoadInt SLV_REG0 42;
       StoreInt SLV_REG3 1; StoreU128 BRAM_BASE (2 ^ 64 + 2); StoreInt SLV_REG3 0;
       StoreInt SLV_REG3 1; LoadU128 BRAM_BASE (2 ^ 64 + 2); StoreInt SLV_REG3 0 ]
  /\ load_int (final (main_accesses m)) SLV_REG0 = 42
  /\ load_int (final (main_accesses m)) SLV_REG1 = load_int m SLV_REG1
  /\ load_int (final (main_accesses m)) SLV_REG2 = load_int m SLV_REG2
  /\ load_int (final (main_accesses m)) SLV_REG3 = 0
  /\ cells_of (final (main_accesses m)) 0 = 2 ^ 64 + 2
  /\ (forall x,
        x < SLV_REG0 \/ SLV_REG0 + 4 <= x ->
        x < SLV_REG3 \/ SLV_REG3 + 4 <= x ->
        x < BRAM_BASE \/ BRAM_BASE + 16 <= x ->
        final (main_accesses m) x = m x).
Proof.
  assert (Hreg : forall r, SLV_REG0 <= r -> r + 4 <= SLV_REG3 ->
            load_int (final (main_accesses m)) r
            = load_int (store_int m SLV_REG0 42) r).
  { intros r Hlo Hhi. apply load_int_ext. intros x Hx.
    apply main_accesses_frame; [lia |].
    unfold BRAM_BASE, SLV_REG3, SLV_REG0 in *. lia. }
  assert (Hother : forall r, SLV_REG0 + 4 <= r ->
            load_int (store_int m SLV_REG0 42) r = load_int m r).
  { intros r Hr. apply load_int_ext. intros x Hx.
    apply store_int_outside. lia. }
  split; [apply main_accesses_result |].
  split; [apply main_accesses_events |].
  split.
  { rewrite Hreg by (unfold SLV_REG3; lia). apply load_store_int. lia. }
  split.
  { rewrite Hreg by (unfold SLV_REG3, SLV_REG1; lia).
    apply Hother. unfold SLV_REG1. lia. }
  split.
  { rewrite Hreg by (unfold SLV_REG3, SLV_REG2; lia).
    apply Hother. unfold SLV_REG2. lia. }
  split; [rewrite main_accesses_final; apply bram_read_clears_enable |].
  split.
  { assert (H0 : is_uint 0) by (unfold is_uint; lia).
    rewrite main_accesses_final, cells_of_read by exact H0.
    rewrite cells_of_write; [reflexivity | unfold is_uint128; lia | exact H0 | exact H0]. }
  intros x H0 H3 Hc.
  rewrite main_accesses_frame by assumption.
  now apply store_int_outside.
Qed.

(** The accesses of [main] are what [Platform.main] does between its two
    calls of [print]. *)
Module PlatformFacts.
Import String.

(** X12. Whatever [init_platform], [print] and [cleanup_platform] do to the
    memory and whatever accesses they make, [main] returns 0 and its own
    accesses, between the two prints, are the same eight: it reads back 42
    from [SLV_REG0] and the 128-bit value from cell 0. The platform calls
    run in the order init, print, the accesses, print, cleanup, each on the
    memory the previous step left. *)
Theorem main_behaviour (init_platform cleanup_platform : io unit)
        (print : string -> io unit) (m : memory) :
  let m1 := final (init_platform m) in
  let m2 := final (print (append "Starting" Platform.newline) m1) in
  let m3 := final (main_accesses m2) in
  let m4 := final (print (append "Done" Platform.newline) m3) in
  result (Platform.main init_platform cleanup_platform print m) = 0
  /\ final (Platform.main init_platform cleanup_platform print m)
     = final (cleanup_platform m4)
  /\ events (Platform.main init_platform cleanup_platform print m) =
     (events (init_platform m)
      ++ events (print (append "Starting" Platform.newline) m1)
      ++ [ StoreInt SLV_REG0 42; LoadInt SLV_REG0 42;
           StoreInt SLV_REG3 1; StoreU128 BRAM_BASE (2 ^ 64 + 2);
           StoreInt SLV_REG3 0;
           StoreInt SLV_REG3 1; LoadU128 BRAM_BASE (2 ^ 64 + 2);
           StoreInt SLV_REG3 0 ]
      ++ events (print (append "Done" Platform.newline) m3)
      ++ events (cleanup_platform m4))%list.
Proof.
  intros m1 m2 m3 m4.
  assert (E : Platform.main init_platform cleanup_platform print m =
              (0, final (cleanup_platform m4),
               (events (init_platform m)
                ++ events (print (append "Starting" Platform.newline) m1)
                ++ events (main_accesses m2)
                ++ events (print (append "Done" Platform.newline) m3)
                ++ events (cleanup_platform m4))%list)).
  { subst m4 m3 m2 m1. unfold Platform.main, bind at 1.
    destruct (init_platform m) as [[u1 n1] e1]. unfold bind at 1.
    cbn [final events fst snd].
    destruct (print (append "Starting" Platform.newline) n1) as [[u2 n2] e2].
    cbn [final events fst snd].
    rewrite (main_accesses_unfold n2). cbv zeta.
    unfold bind, write_int, read_int, ret. cbn [final events fst snd].
    destruct (bram_write _ 0 (store_int n2 SLV_REG0 42)) as [[u3 n3] e3] eqn:Ew.
    cbn [final events fst snd].
    destruct (bram_read 0 n3) as [[v3 n4] e4] eqn:Er.
    cbn [final events fst snd].
    destruct (print (append "Done" Platform.newline) n4) as [[u5 n5] e5].
    cbn [final events fst snd].
    destruct (cleanup_platform n5) as [[u6 n6] e6].
    cbn [final events fst snd app].
    rewrite !app_nil_r, <- !app_assoc. reflexivity. }
  rewrite E, main_accesses_events. unfold result, final, events. cbn [fst snd].
  repeat split.
Qed.

End PlatformFacts.
